(** * ucp/send_recv.py: the completion bridge between the native transfer
      engine and asyncio futures.

    The four entry points [tag_send], [tag_recv], [stream_send] and
    [stream_recv] create an asyncio future, hand a completion callback to
    the native layer and optionally publish the future and the native
    request in a caller-owned dict.  The callbacks resolve the future when
    the native layer reports the completion.

    The embedding is a state-and-exception monad over a store holding the
    event loop's closed flag, the future objects, the dict objects and the
    requests the native layer has in flight.  Futures and dicts are
    referenced by address, so that sharing of one object between the
    caller, the callback arguments and the dict is visible. *)

From Stdlib Require Import ZArith Ascii String DecimalString DecimalZ.
From stdpp Require Import gmap strings list fin_maps.

Local Open Scope Z_scope.

(** ** Python values and exceptions *)

(** Exception instances.  [UCXError] is [exceptions.UCXError(msg)];
    [InvalidStateError] is raised by asyncio when a future that is not
    pending is resolved; [AttributeError] and [TypeError] stand for the
    use of an object that is not a future, respectively not a dict;
    [NativeError] is any other exception instance the native layer may
    report, with its class name and message. *)
Inductive PyException : Type :=
| UCXError (msg : string)
| InvalidStateError
| AttributeError
| TypeError
| NativeError (cls : string) (msg : string).

(** The values that the dicts of this module hold. *)
Inductive PyValue : Type :=
| PyNone
| PyBool (b : bool)
| PyInt (z : Z)
| PyStr (s : string)
| PyFuture (addr : nat)
| PyRequest (handle : nat).

#[global] Instance PyException_eq_dec : EqDecision PyException.
Proof. solve_decision. Defined.

#[global] Instance PyValue_eq_dec : EqDecision PyValue.
Proof. solve_decision. Defined.

(** The state of an [asyncio.Future]: [_PENDING], [_CANCELLED], or
    [_FINISHED] with either a result or an exception. *)
Inductive FutureState : Type :=
| PENDING
| CANCELLED
| FINISHED_result (result : PyValue)
| FINISHED_exception (exception : PyException).

#[global] Instance FutureState_eq_dec : EqDecision FutureState.
Proof. solve_decision. Defined.

(** [Future.done()]. *)
Definition done (st : FutureState) : bool :=
  match st with
  | PENDING => false
  | _ => true
  end.

(** ** What the native layer keeps *)

(** The callback functions of the module, by name. *)
Inductive Callback : Type :=
| TagSendCb
| TagRecvCb
| StreamSendCb
| StreamRecvCb.

(** The argument tuple handed over with the callback: [(ret,)] for the
    sends and [(ret, nbytes)] for the receives. *)
Inductive CallbackArgs : Type :=
| SendArgs (future : nat)
| RecvArgs (future : nat) (expected_receive : Z).

(** The native operation a request was issued for, with the arguments the
    entry point passed through. *)
Inductive NativeOp : Type :=
| UcxTagSend (ucp_endpoint buffer : nat) (nbytes tag : Z)
| WorkerTagRecv (worker buffer : nat) (nbytes tag : Z)
| UcxStreamSend (ucp_endpoint buffer : nat) (nbytes : Z)
| UcxStreamRecv (ucp_endpoint buffer : nat) (nbytes : Z).

Record InFlight : Type := mkInFlight {
  op : NativeOp;
  callback : Callback;
  callback_args : CallbackArgs
}.

(** ** The store *)

Record World : Type := mkWorld {
  (** [asyncio.get_event_loop().is_closed()] *)
  loop_closed : bool;
  (** the future objects, by address *)
  futures : gmap nat FutureState;
  (** the dict objects, by address *)
  dicts : gmap nat (gmap string PyValue);
  (** every [d[k] = v] executed so far, oldest first *)
  setitem_log : list (nat * string * PyValue);
  (** the requests the native layer has accepted and not yet completed *)
  inflight : gmap nat InFlight;
  (** the handle of the next request *)
  next_request : nat
}.

Definition set_futures (f : gmap nat FutureState) (w : World) : World :=
  mkWorld (loop_closed w) f (dicts w) (setitem_log w) (inflight w)
          (next_request w).

Definition set_dicts (d : gmap nat (gmap string PyValue))
    (l : list (nat * string * PyValue)) (w : World) : World :=
  mkWorld (loop_closed w) (futures w) d l (inflight w) (next_request w).

Definition set_inflight (i : gmap nat InFlight) (n : nat) (w : World) : World :=
  mkWorld (loop_closed w) (futures w) (dicts w) (setitem_log w) i n.

(** ** The monad of Python computations *)

Inductive Result (A : Type) : Type :=
| Returned (a : A)
| Raised (e : PyException).
Arguments Returned {A} a.
Arguments Raised {A} e.

Definition Py (A : Type) : Type := World -> Result A * World.

#[global] Instance Py_ret : MRet Py :=
  fun A (a : A) w => (Returned a, w).

#[global] Instance Py_bind : MBind Py :=
  fun A B (k : A -> Py B) (m : Py A) w =>
    match m w with
    | (Returned a, w') => k a w'
    | (Raised e, w') => (Raised e, w')
    end.

Definition raise {A : Type} (e : PyException) : Py A :=
  fun w => (Raised e, w).

(** ** asyncio *)

(** [asyncio.get_event_loop().is_closed()], for the one event loop of
    the thread that runs the bridge. *)
Definition is_closed : Py bool :=
  fun w => (Returned (loop_closed w), w).

(** [asyncio.get_event_loop().create_future()]: a new pending future at
    an address not in use.  The loop does not refuse it when closed. *)
Definition create_future : Py nat :=
  fun w =>
    let addr := fresh (dom (futures w)) in
    (Returned addr, set_futures (<[addr := PENDING]> (futures w)) w).

(** [future.set_result(result)]: a future that is not pending refuses
    with [InvalidStateError]; a pending one takes the result and is
    finished.  No done-callback is attached to a future in this file, so
    there is none to schedule. *)
Definition set_result (future : nat) (result : PyValue) : Py unit :=
  fun w =>
    match futures w !! future with
    | Some PENDING =>
        (Returned tt,
         set_futures (<[future := FINISHED_result result]> (futures w)) w)
    | Some _ => (Raised InvalidStateError, w)
    | None => (Raised AttributeError, w)
    end.

(** [future.set_exception(exception)], for an exception instance: the
    same check, then the future holds the instance it was given. *)
Definition set_exception (future : nat) (exception : PyException) : Py unit :=
  fun w =>
    match futures w !! future with
    | Some PENDING =>
        (Returned tt,
         set_futures (<[future := FINISHED_exception exception]> (futures w)) w)
    | Some _ => (Raised InvalidStateError, w)
    | None => (Raised AttributeError, w)
    end.

(** ** dicts *)

(** [d[key] = value] *)
Definition dict_setitem (d : nat) (key : string) (value : PyValue) : Py unit :=
  fun w =>
    match dicts w !! d with
    | Some items =>
        (Returned tt,
         set_dicts (<[d := <[key := value]> items]> (dicts w))
                   (setitem_log w ++ [(d, key, value)]) w)
    | None => (Raised TypeError, w)
    end.

(** ** String formatting *)

(** ["%d" % z] for a Python int: decimal digits, with a leading minus
    sign for a negative number. *)
Definition format_d (z : Z) : string :=
  NilEmpty.string_of_int (Z.to_int z).

(** The double-quote character. *)
Definition dquote : string := String (ascii_of_nat 34) EmptyString.

(** Truth value of [log_str]: [None] and the empty string are false. *)
Definition truthy (log_str : option string) : bool :=
  match log_str with
  | None => false
  | Some s => negb (String.eqb s EmptyString)
  end.

(** The string in quotes after a space and before a colon, which is what
    the format with [%s] between escaped quotes gives; [None] prints as
    [None]. *)
Definition format_log_str (log_str : option string) : string :=
  " " +:+ dquote +:+ default "None" log_str +:+ dquote +:+ ":".

(** The two statements that build [msg] in [recv_cb]: the first formats
    [Comm Error%s] followed by a space, with the quoted [log_str] when it
    is true and a colon otherwise; the second appends the length mismatch
    text with [received] and [expected_receive], in this order. *)
Definition build_msg (log_str : option string) (received expected_receive : Z)
    : string :=
  let msg :=
    "Comm Error"
    +:+ (if truthy log_str then format_log_str log_str else ":")
    +:+ " " in
  msg +:+ ("length mismatch: " +:+ format_d received +:+ " (got) != "
           +:+ format_d expected_receive +:+ " (expected)").

(** ** The native layer *)

(** Modelled from the spec: the four native issue primitives
    [ucx_api.ucx_tag_send], [worker.tag_recv], [ucx_api.ucx_stream_send]
    and [ucx_api.ucx_stream_recv] live in [ucp/_libs], outside this file.
    Each one accepts the request, keeps the callback with its argument
    tuple for the later completion, and returns the handle of the request
    at once, without invoking the callback. *)
Definition native_issue (o : NativeOp) (cb : Callback) (args : CallbackArgs)
    : Py nat :=
  fun w =>
    let req := next_request w in
    (Returned req,
     set_inflight (<[req := mkInFlight o cb args]> (inflight w)) (S req) w).

Definition ucx_tag_send (ucp_endpoint buffer : nat) (nbytes tag : Z) :=
  native_issue (UcxTagSend ucp_endpoint buffer nbytes tag).

Definition worker_tag_recv (worker buffer : nat) (nbytes tag : Z) :=
  native_issue (WorkerTagRecv worker buffer nbytes tag).

Definition ucx_stream_send (ucp_endpoint buffer : nat) (nbytes : Z) :=
  native_issue (UcxStreamSend ucp_endpoint buffer nbytes).

Definition ucx_stream_recv (ucp_endpoint buffer : nat) (nbytes : Z) :=
  native_issue (UcxStreamRecv ucp_endpoint buffer nbytes).

(** ** The four entry points and their callbacks *)

Module TagSend.

Definition send_cb (exception : option PyException) (future : nat)
    : Py unit :=
  closed ← is_closed;
  if closed : bool then mret tt
  else match exception with
       | Some e => set_exception future e
       | None => set_result future (PyBool true)
       end.

Definition tag_send (ucp_endpoint buffer : nat) (nbytes tag : Z)
    (pending_msg : option nat) : Py nat :=
  ret ← create_future;
  req ← ucx_tag_send ucp_endpoint buffer nbytes tag TagSendCb (SendArgs ret);
  match pending_msg with
  | Some d =>
      dict_setitem d "future" (PyFuture ret);;
      dict_setitem d "ucp_request" (PyRequest req)
  | None => mret tt
  end;;
  mret ret.

End TagSend.

Module TagRecv.

Definition recv_cb (exception : option PyException) (received : Z)
    (future : nat) (expected_receive : Z) : Py unit :=
  closed ← is_closed;
  if closed : bool then mret tt
  else match exception with
       | Some e => set_exception future e
       | None =>
           if negb (received =? expected_receive) then
             let log_str : option string := None in
             let msg := build_msg log_str received expected_receive in
             set_exception future (UCXError msg)
           else set_result future (PyBool true)
       end.

Definition tag_recv (worker buffer : nat) (nbytes tag : Z)
    (pending_msg : option nat) : Py nat :=
  ret ← create_future;
  req ← worker_tag_recv worker buffer nbytes tag TagRecvCb
          (RecvArgs ret nbytes);
  match pending_msg with
  | Some d =>
      dict_setitem d "future" (PyFuture ret);;
      dict_setitem d "ucp_request" (PyRequest req)
  | None => mret tt
  end;;
  mret ret.

End TagRecv.

Module StreamSend.

Definition send_cb (exception : option PyException) (future : nat)
    : Py unit :=
  closed ← is_closed;
  if closed : bool then mret tt
  else match exception with
       | Some e => set_exception future e
       | None => set_result future (PyBool true)
       end.

Definition stream_send (ucp_endpoint buffer : nat) (nbytes : Z)
    (pending_msg : option nat) : Py nat :=
  ret ← create_future;
  req ← ucx_stream_send ucp_endpoint buffer nbytes StreamSendCb (SendArgs ret);
  match pending_msg with
  | Some d =>
      dict_setitem d "future" (PyFuture ret);;
      dict_setitem d "ucp_request" (PyRequest req)
  | None => mret tt
  end;;
  mret ret.

End StreamSend.

Module StreamRecv.

Definition recv_cb (exception : option PyException) (received : Z)
    (future : nat) (expected_receive : Z) : Py unit :=
  closed ← is_closed;
  if closed : bool then mret tt
  else match exception with
       | Some e => set_exception future e
       | None =>
           if negb (received =? expected_receive) then
             let log_str : option string := None in
             let msg := build_msg log_str received expected_receive in
             set_exception future (UCXError msg)
           else set_result future (PyBool true)
       end.

Definition stream_recv (ucp_endpoint buffer : nat) (nbytes : Z)
    (pending_msg : option nat) : Py nat :=
  ret ← create_future;
  req ← ucx_stream_recv ucp_endpoint buffer nbytes StreamRecvCb
          (RecvArgs ret nbytes);
  match pending_msg with
  | Some d =>
      dict_setitem d "future" (PyFuture ret);;
      dict_setitem d "ucp_request" (PyRequest req)
  | None => mret tt
  end;;
  mret ret.

End StreamRecv.

(** ** Completion delivery *)

(** The call the native layer makes on completion: [cb(exception, *args)]
    for a send and [cb(exception, received, *args)] for a receive.  A
    callback handed the argument tuple of the other kind fails as a call
    with the wrong number of arguments does. *)
Definition invoke (cb : Callback) (args : CallbackArgs)
    (exception : option PyException) (received : Z) : Py unit :=
  match cb, args with
  | TagSendCb, SendArgs future => TagSend.send_cb exception future
  | StreamSendCb, SendArgs future => StreamSend.send_cb exception future
  | TagRecvCb, RecvArgs future expected_receive =>
      TagRecv.recv_cb exception received future expected_receive
  | StreamRecvCb, RecvArgs future expected_receive =>
      StreamRecv.recv_cb exception received future expected_receive
  | _, _ => raise TypeError
  end.

(** Modelled from the spec: the completion of request [req] by the native
    layer, which lives outside this file.  The request leaves the set of
    requests in flight and its callback is invoked, once, with the outcome.
    A handle with no request in flight completes nothing. *)
Definition deliver (req : nat) (exception : option PyException) (received : Z)
    : Py unit :=
  fun w =>
    match inflight w !! req with
    | Some r =>
        invoke (callback r) (callback_args r) exception received
               (set_inflight (delete req (inflight w)) (next_request w) w)
    | None => (Returned tt, w)
    end.

(** The four entry points under one name, for statements about all of
    them.  [tag] is ignored by the stream operations, which have none. *)
Inductive EntryPoint : Type := TAG_SEND | TAG_RECV | STREAM_SEND | STREAM_RECV.

Definition entry_point (ep : EntryPoint) (peer buffer : nat) (nbytes tag : Z)
    (pending_msg : option nat) : Py nat :=
  match ep with
  | TAG_SEND => TagSend.tag_send peer buffer nbytes tag pending_msg
  | TAG_RECV => TagRecv.tag_recv peer buffer nbytes tag pending_msg
  | STREAM_SEND => StreamSend.stream_send peer buffer nbytes pending_msg
  | STREAM_RECV => StreamRecv.stream_recv peer buffer nbytes pending_msg
  end.

Definition entry_callback (ep : EntryPoint) : Callback :=
  match ep with
  | TAG_SEND => TagSendCb
  | TAG_RECV => TagRecvCb
  | STREAM_SEND => StreamSendCb
  | STREAM_RECV => StreamRecvCb
  end.

Definition entry_op (ep : EntryPoint) (peer buffer : nat) (nbytes tag : Z)
    : NativeOp :=
  match ep with
  | TAG_SEND => UcxTagSend peer buffer nbytes tag
  | TAG_RECV => WorkerTagRecv peer buffer nbytes tag
  | STREAM_SEND => UcxStreamSend peer buffer nbytes
  | STREAM_RECV => UcxStreamRecv peer buffer nbytes
  end.

Definition entry_args (ep : EntryPoint) (ret : nat) (nbytes : Z)
    : CallbackArgs :=
  match ep with
  | TAG_SEND | STREAM_SEND => SendArgs ret
  | TAG_RECV | STREAM_RECV => RecvArgs ret nbytes
  end.

(** The future in an argument tuple. *)
Definition args_future (args : CallbackArgs) : nat :=
  match args with
  | SendArgs future => future
  | RecvArgs future _ => future
  end.

(** The argument tuple has the shape the callback takes. *)
Definition call_fits (cb : Callback) (args : CallbackArgs) : bool :=
  match cb, args with
  | TagSendCb, SendArgs _ | StreamSendCb, SendArgs _ => true
  | TagRecvCb, RecvArgs _ _ | StreamRecvCb, RecvArgs _ _ => true
  | _, _ => false
  end.

(** One invocation of a callback by the native layer. *)
Record Invocation : Type := mkInvocation {
  inv_callback : Callback;
  inv_args : CallbackArgs;
  inv_exception : option PyException;
  inv_received : Z
}.

Definition run_invocation (i : Invocation) : Py unit :=
  invoke (inv_callback i) (inv_args i) (inv_exception i) (inv_received i).

(** A caller that invokes callbacks one after the other and goes on when
    one of them raises; it collects what each invocation did. *)
Fixpoint run_invocations (l : list Invocation) (w : World)
    : list (Result unit) * World :=
  match l with
  | [] => ([], w)
  | i :: l' =>
      let (r, w') := run_invocation i w in
      let (rs, w'') := run_invocations l' w' in
      (r :: rs, w'')
  end.

(** The message of a length mismatch, as a caller reads it. *)
Definition length_mismatch_msg (received expected_receive : Z) : string :=
  "Comm Error: length mismatch: " +:+ format_d received +:+ " (got) != "
  +:+ format_d expected_receive +:+ " (expected)".

(** Worlds for the examples: the loop open or closed, one future at
    address 0, one dict at address 7 that already has a key. *)
Definition example_world (closed : bool) (st : FutureState) : World :=
  mkWorld closed {[ 0%nat := st ]}
          {[ 7%nat := {[ "note" := PyStr "keep" ]} ]} [] ∅ 0.

(** The callbacks of the two sends and of the two receives. *)
Definition send_callbacks : list (option PyException → nat → Py unit) :=
  [TagSend.send_cb; StreamSend.send_cb].

Definition recv_callbacks
    : list (option PyException → Z → nat → Z → Py unit) :=
  [TagRecv.recv_cb; StreamRecv.recv_cb].

(** The store after [future] went to state [st]. *)
Definition resolved (future : nat) (st : FutureState) (w : World) : World :=
  set_futures (<[future := st]> (futures w)) w.

(** What a callback does when its future is no longer pending. *)
Definition refusal (w : World) : Result unit :=
  if loop_closed w then Returned tt else Raised InvalidStateError.

Definition targets (future : nat) (i : Invocation) : Prop :=
  call_fits (inv_callback i) (inv_args i) = true
  ∧ args_future (inv_args i) = future.

(** The store after an entry point created its future and the native
    layer accepted the request. *)
Definition issued (ep : EntryPoint) (peer buffer : nat) (nbytes tag : Z)
    (w : World) : World :=
  let ret := fresh (dom (futures w)) in
  let req := next_request w in
  set_inflight
    (<[req := mkInFlight (entry_op ep peer buffer nbytes tag)
                (entry_callback ep) (entry_args ep ret nbytes)]> (inflight w))
    (S req)
    (set_futures (<[ret := PENDING]> (futures w)) w).

(** The store after the two assignments to the dict at [d], which held
    [items]. *)
Definition published (d : nat) (items : gmap string PyValue) (ret req : nat)
    (w : World) : World :=
  set_dicts
    (<[d := <["ucp_request" := PyRequest req]>
              (<["future" := PyFuture ret]> items)]> (dicts w))
    (setitem_log w
     ++ [(d, "future", PyFuture ret); (d, "ucp_request", PyRequest req)])
    w.

(** No character of the string is a space. *)
Fixpoint no_space (s : string) : bool :=
  match s with
  | EmptyString => true
  | String c s' => negb (Ascii.eqb c " ") && no_space s'
  end.

(** The state in which a callback leaves a pending future on an open
    loop, by the argument tuple and the outcome it is invoked with. *)
Definition completion_state (args : CallbackArgs)
    (exception : option PyException) (received : Z) : FutureState :=
  match exception, args with
  | Some e, _ => FINISHED_exception e
  | None, SendArgs _ => FINISHED_result (PyBool true)
  | None, RecvArgs _ expected_receive =>
      if received =? expected_receive
      then FINISHED_result (PyBool true)
      else FINISHED_exception
             (UCXError (length_mismatch_msg received expected_receive))
  end.

(** A world with two pending futures, at addresses 0 and 1, and an open
    loop. *)
Definition two_futures_world : World :=
  mkWorld false {[ 0%nat := PENDING; 1%nat := PENDING ]} ∅ [] ∅ 0.

(** * Properties *)

(** ** The future operations *)

Lemma set_result_pending future result w :
  futures w !! future = Some PENDING →
  set_result future result w
  = (Returned tt,
     set_futures (<[future := FINISHED_result result]> (futures w)) w).
Proof. intros Hf. unfold set_result. by rewrite Hf. Qed.

Lemma set_exception_pending future exception w :
  futures w !! future = Some PENDING →
  set_exception future exception w
  = (Returned tt,
     set_futures (<[future := FINISHED_exception exception]> (futures w)) w).
Proof. intros Hf. unfold set_exception. by rewrite Hf. Qed.

Lemma set_result_done future result w st :
  futures w !! future = Some st → done st = true →
  set_result future result w = (Raised InvalidStateError, w).
Proof. intros Hf Hd. unfold set_result. rewrite Hf. by destruct st. Qed.

Lemma set_exception_done future exception w st :
  futures w !! future = Some st → done st = true →
  set_exception future exception w = (Raised InvalidStateError, w).
Proof. intros Hf Hd. unfold set_exception. rewrite Hf. by destruct st. Qed.

(** ** The callbacks, read as functions of the store *)

Lemma send_cb_run exception future w :
  TagSend.send_cb exception future w
  = if loop_closed w then (Returned tt, w)
    else match exception with
         | Some e => set_exception future e w
         | None => set_result future (PyBool true) w
         end.
Proof.
  unfold TagSend.send_cb, is_closed, mbind, Py_bind, mret, Py_ret.
  by destruct (loop_closed w), exception.
Qed.

Lemma recv_cb_run exception received future expected_receive w :
  TagRecv.recv_cb exception received future expected_receive w
  = if loop_closed w then (Returned tt, w)
    else match exception with
         | Some e => set_exception future e w
         | None =>
             if received =? expected_receive
             then set_result future (PyBool true) w
             else set_exception future
                    (UCXError (build_msg None received expected_receive)) w
         end.
Proof.
  unfold TagRecv.recv_cb, is_closed, mbind, Py_bind, mret, Py_ret.
  destruct (loop_closed w), exception; try done.
  by destruct (received =? expected_receive).
Qed.

Lemma stream_send_cb_is_tag exception future :
  StreamSend.send_cb exception future = TagSend.send_cb exception future.
Proof. reflexivity. Qed.

Lemma stream_recv_cb_is_tag exception received future expected_receive :
  StreamRecv.recv_cb exception received future expected_receive
  = TagRecv.recv_cb exception received future expected_receive.
Proof. reflexivity. Qed.

(** An invocation with a fitting argument tuple runs the send or the
    receive body, whichever the callback is. *)
Lemma invoke_run cb args exception received w :
  call_fits cb args = true →
  invoke cb args exception received w
  = match args with
    | SendArgs future => TagSend.send_cb exception future w
    | RecvArgs future expected_receive =>
        TagRecv.recv_cb exception received future expected_receive w
    end.
Proof. by destruct cb, args. Qed.

Lemma build_msg_None received expected_receive :
  build_msg None received expected_receive
  = length_mismatch_msg received expected_receive.
Proof.
  unfold build_msg, length_mismatch_msg. simpl truthy. cbv iota.
  reflexivity.
Qed.

(** With the loop closed an invocation does nothing at all. *)
Lemma invoke_closed cb args exception received w :
  call_fits cb args = true → loop_closed w = true →
  invoke cb args exception received w = (Returned tt, w).
Proof.
  intros Hfit Hc. rewrite invoke_run by done.
  destruct args; [rewrite send_cb_run | rewrite recv_cb_run]; by rewrite Hc.
Qed.

(** With the loop open and the future already done, an invocation is
    refused by the future and the store stays as it is. *)
Lemma invoke_done cb args exception received w st :
  call_fits cb args = true → loop_closed w = false →
  futures w !! args_future args = Some st → done st = true →
  invoke cb args exception received w = (Raised InvalidStateError, w).
Proof.
  intros Hfit Hc Hf Hd. rewrite invoke_run by done.
  destruct args as [future|future expected_receive]; simpl in Hf.
  - rewrite send_cb_run, Hc.
    destruct exception;
      eauto using set_exception_done, set_result_done.
  - rewrite recv_cb_run, Hc.
    destruct exception; [eauto using set_exception_done|].
    destruct (received =? expected_receive);
      eauto using set_exception_done, set_result_done.
Qed.

Lemma send_callbacks_inv send_cb :
  send_cb ∈ send_callbacks → send_cb = TagSend.send_cb.
Proof.
  unfold send_callbacks. rewrite !elem_of_cons, elem_of_nil.
  intros [-> | [-> | []]]; reflexivity.
Qed.

Lemma recv_callbacks_inv recv_cb :
  recv_cb ∈ recv_callbacks → recv_cb = TagRecv.recv_cb.
Proof.
  unfold recv_callbacks. rewrite !elem_of_cons, elem_of_nil.
  intros [-> | [-> | []]]; reflexivity.
Qed.

Lemma send_cb_closed exception future w :
  loop_closed w = true →
  TagSend.send_cb exception future w = (Returned tt, w).
Proof. intros Hc. by rewrite send_cb_run, Hc. Qed.

Lemma recv_cb_closed exception received future expected_receive w :
  loop_closed w = true →
  TagRecv.recv_cb exception received future expected_receive w
  = (Returned tt, w).
Proof. intros Hc. by rewrite recv_cb_run, Hc. Qed.

Lemma run_invocations_closed l w :
  loop_closed w = true →
  Forall (λ i, call_fits (inv_callback i) (inv_args i) = true) l →
  run_invocations l w = (map (λ _, Returned tt) l, w).
Proof.
  intros Hc. induction 1 as [|i l Hi _ IH]; [done|].
  simpl. unfold run_invocation. rewrite invoke_closed by done.
  by rewrite IH.
Qed.

Lemma run_invocations_done l w future st :
  futures w !! future = Some st → done st = true →
  Forall (targets future) l →
  run_invocations l w = (map (λ _, refusal w) l, w).
Proof.
  intros Hf Hd. induction 1 as [|i l [Hfit Htgt] _ IH]; [done|].
  simpl. unfold run_invocation.
  assert (invoke (inv_callback i) (inv_args i) (inv_exception i)
            (inv_received i) w = (refusal w, w)) as ->.
  { unfold refusal. destruct (loop_closed w) eqn:Hc.
    - by apply invoke_closed.
    - apply invoke_done with st; [done..|by rewrite Htgt|done]. }
  by rewrite IH.
Qed.

(** ** The claims about completion *)

(** C3: when the event loop is already closed at delivery time, every
    callback, of any of the four kinds and for any outcome, returns
    without raising and leaves the whole store as it was, so the future
    is not resolved; and this stays so for any later sequence of
    invocations: a pending future stays pending. *)
Theorem closed_loop_discards_completion (w : World) :
  loop_closed w = true →
  (∀ send_cb exception future,
     send_cb ∈ send_callbacks →
     send_cb exception future w = (Returned tt, w))
  ∧ (∀ recv_cb exception received future expected_receive,
       recv_cb ∈ recv_callbacks →
       recv_cb exception received future expected_receive w
       = (Returned tt, w))
  ∧ (∀ l,
       Forall (λ i, call_fits (inv_callback i) (inv_args i) = true) l →
       run_invocations l w = (map (λ _, Returned tt) l, w)).
Proof.
  intros Hc. split_and!.
  - intros send_cb exception future ->%send_callbacks_inv.
    by apply send_cb_closed.
  - intros recv_cb exception received future expected_receive
      ->%recv_callbacks_inv.
    by apply recv_cb_closed.
  - intros l Hl. by apply run_invocations_closed.
Qed.

Lemma closed_loop_discards_completion_witness :
  TagSend.send_cb (Some (NativeError "UCXCanceled" "request canceled")) 0
    (example_world true PENDING)
  = (Returned tt, example_world true PENDING)
  ∧ futures (example_world true PENDING) !! 0%nat = Some PENDING.
Proof.
  split; [|reflexivity].
  apply (closed_loop_discards_completion (example_world true PENDING)).
  - reflexivity.
  - unfold send_callbacks. apply elem_of_cons. by left.
Defined.

(** C2, as the spec has it, fails: a second invocation on an open loop
    raises.  Here [tag_send]'s callback is invoked twice with a success
    outcome; the first call resolves the future, the second one raises
    [InvalidStateError]. *)
Lemma second_completion_raises :
  TagSend.send_cb None 0 (example_world false PENDING)
  = (Returned tt,
     example_world false (FINISHED_result (PyBool true)))
  ∧ TagSend.send_cb None 0
      (example_world false (FINISHED_result (PyBool true)))
    = (Raised InvalidStateError,
       example_world false (FINISHED_result (PyBool true))).
Proof. split; reflexivity. Qed.

(** C2, amended: once the future is done, no invocation of a callback on
    it, however many follow and whatever their outcome, changes the
    future or anything else in the store.  Each such invocation returns
    silently when the loop is closed and raises [InvalidStateError] when
    it is open. *)
Theorem resolved_future_never_changes (l : list Invocation) (w : World)
    (future : nat) (st : FutureState) :
  futures w !! future = Some st →
  done st = true →
  Forall (targets future) l →
  run_invocations l w = (map (λ _, refusal w) l, w)
  ∧ futures (run_invocations l w).2 !! future = Some st.
Proof.
  intros Hf Hd Hl.
  rewrite (run_invocations_done l w future st) by done. done.
Qed.

Lemma resolved_future_never_changes_witness :
  run_invocations
    [mkInvocation TagRecvCb (RecvArgs 0 100) None 100;
     mkInvocation TagRecvCb (RecvArgs 0 100)
       (Some (NativeError "UCXError" "endpoint closed")) 0]
    (example_world false (FINISHED_result (PyBool true)))
  = ([Raised InvalidStateError; Raised InvalidStateError],
     example_world false (FINISHED_result (PyBool true))).
Proof.
  refine (proj1 (resolved_future_never_changes
                   [mkInvocation TagRecvCb (RecvArgs 0 100) None 100;
                    mkInvocation TagRecvCb (RecvArgs 0 100)
                      (Some (NativeError "UCXError" "endpoint closed")) 0]
                   (example_world false (FINISHED_result (PyBool true)))
                   0%nat (FINISHED_result (PyBool true)) _ _ _)).
  - reflexivity.
  - reflexivity.
  - repeat constructor.
Defined.

Lemma send_cb_open_pending exception future w :
  loop_closed w = false → futures w !! future = Some PENDING →
  TagSend.send_cb exception future w
  = (Returned tt,
     resolved future
       match exception with
       | Some e => FINISHED_exception e
       | None => FINISHED_result (PyBool true)
       end w).
Proof.
  intros Hc Hf. rewrite send_cb_run, Hc. unfold resolved.
  destruct exception; auto using set_exception_pending, set_result_pending.
Qed.

Lemma recv_cb_open_pending exception received future expected_receive w :
  loop_closed w = false → futures w !! future = Some PENDING →
  TagRecv.recv_cb exception received future expected_receive w
  = (Returned tt,
     resolved future
       match exception with
       | Some e => FINISHED_exception e
       | None =>
           if received =? expected_receive
           then FINISHED_result (PyBool true)
           else FINISHED_exception
                  (UCXError (length_mismatch_msg received expected_receive))
       end w).
Proof.
  intros Hc Hf. rewrite recv_cb_run, Hc. unfold resolved.
  destruct exception; [auto using set_exception_pending|].
  rewrite build_msg_None.
  destruct (received =? expected_receive);
    auto using set_exception_pending, set_result_pending.
Qed.

Lemma resolved_lookup future st w :
  futures (resolved future st w) !! future = Some st.
Proof. unfold resolved. simpl. apply lookup_insert_eq. Qed.

(** C4, as the spec has it, fails: the delivered failure is not wrapped
    in an error kind of the bridge.  The only exception the bridge makes
    is [UCXError], for a length mismatch.  Here [stream_send]'s callback
    is given a transport fault of the native layer on an open loop: the
    future then holds that exception itself, and no [UCXError]. *)
Lemma native_error_is_not_wrapped :
  StreamSend.send_cb (Some (NativeError "TransferFault" "transport fault")) 0
    (example_world false PENDING)
  = (Returned tt,
     example_world false
       (FINISHED_exception (NativeError "TransferFault" "transport fault")))
  ∧ ∀ msg,
      futures
        (StreamSend.send_cb
           (Some (NativeError "TransferFault" "transport fault")) 0
           (example_world false PENDING)).2 !! 0%nat
      ≠ Some (FINISHED_exception (UCXError msg)).
Proof. split; [reflexivity|]. intros msg. discriminate. Qed.

(** C4, amended: on an open loop, a completion that carries an error
    indicator resolves the pending future to that very exception, for
    each of the four callbacks: the exception stored in the future is
    the one the native layer delivered, class and message untouched and
    with no wrapper around it, so the future holds a [UCXError] only if
    a [UCXError] is what was delivered; nothing else in the store
    changes. *)
Theorem native_error_passes_through (e : PyException) (future : nat)
    (w : World) :
  loop_closed w = false →
  futures w !! future = Some PENDING →
  (∀ send_cb, send_cb ∈ send_callbacks →
     send_cb (Some e) future w
     = (Returned tt, resolved future (FINISHED_exception e) w))
  ∧ (∀ recv_cb received expected_receive, recv_cb ∈ recv_callbacks →
       recv_cb (Some e) received future expected_receive w
       = (Returned tt, resolved future (FINISHED_exception e) w))
  ∧ futures (resolved future (FINISHED_exception e) w) !! future
    = Some (FINISHED_exception e)
  ∧ ∀ msg,
      futures (resolved future (FINISHED_exception e) w) !! future
      = Some (FINISHED_exception (UCXError msg)) →
      e = UCXError msg.
Proof.
  intros Hc Hf. split_and!.
  - intros send_cb ->%send_callbacks_inv.
    by rewrite send_cb_open_pending.
  - intros recv_cb received expected_receive ->%recv_callbacks_inv.
    by rewrite recv_cb_open_pending.
  - apply resolved_lookup.
  - intros msg. rewrite resolved_lookup. by intros [= ->].
Qed.

Lemma native_error_passes_through_witness :
  StreamSend.send_cb (Some (NativeError "TransferFault" "transport fault")) 0
    (example_world false PENDING)
  = (Returned tt,
     example_world false
       (FINISHED_exception (NativeError "TransferFault" "transport fault"))).
Proof.
  refine (proj1 (native_error_passes_through
                   (NativeError "TransferFault" "transport fault") 0%nat
                   (example_world false PENDING) _ _) StreamSend.send_cb _).
  - reflexivity.
  - reflexivity.
  - unfold send_callbacks. apply elem_of_cons. right.
    apply elem_of_cons. by left.
Defined.

(** C5: on an open loop a receive callback looks at the error indicator
    before it compares the byte counts: with an error indicator the
    pending future is resolved to that error also when the received
    count differs from the expected one, and the exception it then holds
    is the delivered one, so a length mismatch error only if that is
    what was delivered. *)
Theorem error_indicator_checked_first (e : PyException)
    (received expected_receive : Z) (future : nat) (w : World) :
  loop_closed w = false →
  futures w !! future = Some PENDING →
  received ≠ expected_receive →
  ∀ recv_cb, recv_cb ∈ recv_callbacks →
    ∃ w',
      recv_cb (Some e) received future expected_receive w = (Returned tt, w')
      ∧ futures w' !! future = Some (FINISHED_exception e)
      ∧ (e ≠ UCXError (length_mismatch_msg received expected_receive) →
         futures w' !! future
         ≠ Some (FINISHED_exception
                   (UCXError (length_mismatch_msg received expected_receive)))).
Proof.
  intros Hc Hf Hne recv_cb ->%recv_callbacks_inv.
  exists (resolved future (FINISHED_exception e) w). split_and!.
  - by rewrite recv_cb_open_pending.
  - apply resolved_lookup.
  - intros He. rewrite resolved_lookup. congruence.
Qed.

Lemma error_indicator_checked_first_witness :
  ∃ w',
    TagRecv.recv_cb (Some (NativeError "UCXError" "endpoint closed")) 80 0 100
      (example_world false PENDING) = (Returned tt, w')
    ∧ futures w' !! 0%nat
      = Some (FINISHED_exception (NativeError "UCXError" "endpoint closed"))
    ∧ (NativeError "UCXError" "endpoint closed"
       ≠ UCXError (length_mismatch_msg 80 100) →
       futures w' !! 0%nat
       ≠ Some (FINISHED_exception (UCXError (length_mismatch_msg 80 100)))).
Proof.
  refine (error_indicator_checked_first
            (NativeError "UCXError" "endpoint closed") 80 100 0%nat
            (example_world false PENDING) _ _ _ TagRecv.recv_cb _).
  - reflexivity.
  - reflexivity.
  - lia.
  - unfold recv_callbacks. apply elem_of_cons. by left.
Defined.

(** C7: on an open loop a send completion without an error indicator
    resolves the pending future to the result [True], which carries
    nothing of the transfer.  A send callback takes no byte count, and
    whatever outcome it is given, in whatever store, every future is
    afterwards in the state it was in, or holds [True], or holds the
    exception that was delivered: a send never makes an error of its
    own. *)
Theorem send_completion_success (send_cb : option PyException → nat → Py unit)
    (future : nat) (w : World) :
  send_cb ∈ send_callbacks →
  (loop_closed w = false → futures w !! future = Some PENDING →
   send_cb None future w
   = (Returned tt, resolved future (FINISHED_result (PyBool true)) w))
  ∧ (∀ exception other st,
       futures (send_cb exception future w).2 !! other = Some st →
       futures w !! other = Some st
       ∨ st = FINISHED_result (PyBool true)
       ∨ ∃ e, exception = Some e ∧ st = FINISHED_exception e).
Proof.
  intros ->%send_callbacks_inv. split.
  - intros Hc Hf. by rewrite send_cb_open_pending.
  - intros exception other st. rewrite send_cb_run.
    destruct (loop_closed w); [by left|].
    destruct exception as [e|]; unfold set_exception, set_result;
      destruct (futures w !! future) as [[]|] eqn:Hf; simpl; auto;
      destruct (decide (future = other)) as [->|Hne];
      rewrite ?lookup_insert_eq, ?lookup_insert_ne by done; auto;
      intros [= <-]; eauto.
Qed.

Lemma send_completion_success_witness :
  StreamSend.send_cb None 0 (example_world false PENDING)
  = (Returned tt, example_world false (FINISHED_result (PyBool true))).
Proof.
  refine (proj1 (send_completion_success StreamSend.send_cb 0%nat
                   (example_world false PENDING) _) _ _).
  - unfold send_callbacks. apply elem_of_cons. right.
    apply elem_of_cons. by left.
  - reflexivity.
  - reflexivity.
Defined.

(** C8: the callbacks of the tag and of the stream operations are the
    same functions: on every input and in every store, [tag_send]'s and
    [stream_send]'s callbacks give the same result and the same store,
    and so do [tag_recv]'s and [stream_recv]'s, which includes the
    message of the error they make. *)
Theorem tag_and_stream_callbacks_agree (exception : option PyException)
    (received : Z) (future : nat) (expected_receive : Z) (w : World) :
  TagSend.send_cb exception future w = StreamSend.send_cb exception future w
  ∧ TagRecv.recv_cb exception received future expected_receive w
    = StreamRecv.recv_cb exception received future expected_receive w.
Proof.
  split.
  - symmetry. exact (f_equal (λ k, k w)
                       (stream_send_cb_is_tag exception future)).
  - symmetry. exact (f_equal (λ k, k w)
                       (stream_recv_cb_is_tag exception received future
                          expected_receive)).
Qed.

(** ** The entry points *)

Lemma entry_point_run ep peer buffer nbytes tag pending_msg w :
  entry_point ep peer buffer nbytes tag pending_msg w
  = let ret := fresh (dom (futures w)) in
    let w1 := issued ep peer buffer nbytes tag w in
    match pending_msg with
    | None => (Returned ret, w1)
    | Some d =>
        match dicts w !! d with
        | Some items =>
            (Returned ret, published d items ret (next_request w) w1)
        | None => (Raised TypeError, w1)
        end
    end.
Proof.
  destruct ep, pending_msg as [d|]; try reflexivity;
    cbv [entry_point TagSend.tag_send TagRecv.tag_recv StreamSend.stream_send
         StreamRecv.stream_recv ucx_tag_send worker_tag_recv ucx_stream_send
         ucx_stream_recv native_issue create_future dict_setitem
         mbind Py_bind mret Py_ret issued published set_dicts set_inflight
         set_futures entry_op entry_callback entry_args];
    simpl; destruct (dicts w !! d) as [items|] eqn:Hd; simpl; try reflexivity;
    rewrite lookup_insert_eq; simpl;
    by rewrite insert_insert_eq, <- app_assoc.
Qed.

(** ** The message of a length mismatch names both counts *)

Lemma format_d_inj z1 z2 : format_d z1 = format_d z2 → z1 = z2.
Proof.
  unfold format_d. intros Heq.
  assert (Z.to_int z1 = Z.to_int z2) as Hint.
  { apply (inj Some). by rewrite <- !NilEmpty.isi, Heq. }
  by rewrite <- (DecimalZ.of_to z1), <- (DecimalZ.of_to z2), Hint.
Qed.

Lemma string_of_uint_no_space d :
  no_space (NilEmpty.string_of_uint d) = true.
Proof. induction d; simpl; auto. Qed.

Lemma format_d_no_space z : no_space (format_d z) = true.
Proof.
  unfold format_d. destruct (Z.to_int z); simpl;
    apply string_of_uint_no_space.
Qed.

(** Two strings without a space, each followed by a space and a rest:
    the first space is where they end. *)
Lemma cut_at_space s1 s2 t1 t2 :
  no_space s1 = true → no_space s2 = true →
  s1 +:+ String " " t1 = s2 +:+ String " " t2 →
  s1 = s2 ∧ t1 = t2.
Proof.
  revert s2. induction s1 as [|c1 s1 IH]; intros [|c2 s2]; simpl.
  - intros _ _ [= ->]. done.
  - intros _ [Hc _]%andb_prop [= <- _]. done.
  - intros [Hc _]%andb_prop _ [= -> _]. done.
  - intros [_ H1]%andb_prop [_ H2]%andb_prop [= -> Heq].
    destruct (IH s2 H1 H2 Heq) as [-> ->]. done.
Qed.

Lemma length_mismatch_msg_inj received1 expected1 received2 expected2 :
  length_mismatch_msg received1 expected1
  = length_mismatch_msg received2 expected2 →
  received1 = received2 ∧ expected1 = expected2.
Proof.
  unfold length_mismatch_msg. intros Heq.
  apply (inj (String.app _)) in Heq.
  apply cut_at_space in Heq as [Hr Heq]; try apply format_d_no_space.
  apply (inj (String.app "(got) != ")) in Heq.
  apply cut_at_space in Heq as [He _]; try apply format_d_no_space.
  split; by apply format_d_inj.
Qed.

(** ** The claims about receives *)

Lemma issued_future ep peer buffer nbytes tag w :
  futures (issued ep peer buffer nbytes tag w) !! fresh (dom (futures w))
  = Some PENDING.
Proof. unfold issued. simpl. apply lookup_insert_eq. Qed.

Lemma issued_inflight ep peer buffer nbytes tag w :
  inflight (issued ep peer buffer nbytes tag w) !! next_request w
  = Some (mkInFlight (entry_op ep peer buffer nbytes tag) (entry_callback ep)
            (entry_args ep (fresh (dom (futures w))) nbytes)).
Proof. unfold issued. simpl. apply lookup_insert_eq. Qed.

Lemma entry_point_returns ep peer buffer nbytes tag pending_msg w :
  (∀ d, pending_msg = Some d → is_Some (dicts w !! d)) →
  ∃ w',
    entry_point ep peer buffer nbytes tag pending_msg w
    = (Returned (fresh (dom (futures w))), w')
    ∧ futures w' = futures (issued ep peer buffer nbytes tag w)
    ∧ inflight w' = inflight (issued ep peer buffer nbytes tag w).
Proof.
  intros Hd. rewrite entry_point_run. cbv zeta.
  destruct pending_msg as [d|]; [|eauto].
  destruct (Hd d eq_refl) as [items ->]. eauto.
Qed.

(** C1: a receive entry point hands its [nbytes] argument to the native
    layer as the expected count, together with the future it returns.
    When the native layer then invokes the callback with these arguments
    and no error indicator, on an open loop and with the future pending,
    the future is resolved to [True] if the received count equals
    [nbytes], and otherwise to a [UCXError] whose message names the
    received and the expected count; the two counts can be read back
    from the message. *)
Theorem recv_completion_checks_length (ep : EntryPoint) (peer buffer : nat)
    (nbytes tag : Z) (pending_msg : option nat) (w : World) :
  ep = TAG_RECV ∨ ep = STREAM_RECV →
  (∀ d, pending_msg = Some d → is_Some (dicts w !! d)) →
  ∃ ret w1,
    entry_point ep peer buffer nbytes tag pending_msg w = (Returned ret, w1)
    ∧ futures w1 !! ret = Some PENDING
    ∧ inflight w1 !! next_request w
      = Some (mkInFlight (entry_op ep peer buffer nbytes tag)
                (entry_callback ep) (RecvArgs ret nbytes))
    ∧ ∀ received w2,
        loop_closed w2 = false →
        futures w2 !! ret = Some PENDING →
        invoke (entry_callback ep) (RecvArgs ret nbytes) None received w2
        = (Returned tt,
           resolved ret
             (if received =? nbytes
              then FINISHED_result (PyBool true)
              else FINISHED_exception
                     (UCXError (length_mismatch_msg received nbytes))) w2)
        ∧ ∀ received' expected',
            length_mismatch_msg received' expected'
            = length_mismatch_msg received nbytes →
            received' = received ∧ expected' = nbytes.
Proof.
  intros Hep Hd.
  destruct (entry_point_returns ep peer buffer nbytes tag pending_msg w Hd)
    as (w1 & Hrun & Hfut & Hinf).
  exists (fresh (dom (futures w))), w1. split_and!.
  - exact Hrun.
  - rewrite Hfut. apply issued_future.
  - rewrite Hinf, issued_inflight. by destruct Hep as [-> | ->].
  - intros received w2 Hc Hf. split.
    + rewrite invoke_run by (by destruct Hep as [-> | ->]).
      by rewrite recv_cb_open_pending.
    + intros received' expected'. apply length_mismatch_msg_inj.
Qed.

Lemma recv_completion_checks_length_witness :
  ∃ ret w1,
    entry_point TAG_RECV 1 2 100 5 None (example_world false PENDING)
    = (Returned ret, w1)
    ∧ futures w1 !! ret = Some PENDING
    ∧ inflight w1 !! next_request (example_world false PENDING)
      = Some (mkInFlight (entry_op TAG_RECV 1 2 100 5)
                (entry_callback TAG_RECV) (RecvArgs ret 100))
    ∧ ∀ received w2,
        loop_closed w2 = false →
        futures w2 !! ret = Some PENDING →
        invoke (entry_callback TAG_RECV) (RecvArgs ret 100) None received w2
        = (Returned tt,
           resolved ret
             (if received =? 100
              then FINISHED_result (PyBool true)
              else FINISHED_exception
                     (UCXError (length_mismatch_msg received 100))) w2)
        ∧ ∀ received' expected',
            length_mismatch_msg received' expected'
            = length_mismatch_msg received 100 →
            received' = received ∧ expected' = 100.
Proof.
  apply (recv_completion_checks_length TAG_RECV 1 2 100 5 None
           (example_world false PENDING)).
  - by left.
  - intros d Hd. discriminate Hd.
Defined.

(** The scenario of the spec, run: [tag_recv] for 100 bytes, then the
    completion of the request with 100 bytes and 80 bytes received. *)
Example tag_recv_100_then_100 :
  let w1 := (TagRecv.tag_recv 1 2 100 5 None (example_world false PENDING)).2 in
  (TagRecv.tag_recv 1 2 100 5 None (example_world false PENDING)).1
  = Returned 1%nat
  ∧ (deliver 0 None 100 w1).1 = Returned tt
  ∧ futures (deliver 0 None 100 w1).2 !! 1%nat
    = Some (FINISHED_result (PyBool true)).
Proof. vm_compute. done. Qed.

Example tag_recv_100_then_80 :
  let w1 := (TagRecv.tag_recv 1 2 100 5 None (example_world false PENDING)).2 in
  (deliver 0 None 80 w1).1 = Returned tt
  ∧ futures (deliver 0 None 80 w1).2 !! 1%nat
    = Some (FINISHED_exception
              (UCXError
                 "Comm Error: length mismatch: 80 (got) != 100 (expected)")).
Proof. vm_compute. done. Qed.

(** C10: whenever a receive callback resolves a future to a length
    mismatch, which is on an open loop, without an error indicator and
    with a received count other than the expected one, the message is
    [Comm Error: length mismatch: R (got) != E (expected)] with R the
    received and E the expected count in decimal.  The message is built
    with [log_str] being [None], so the variant with a quoted [log_str]
    never appears: the text before the counts is always the same. *)
Theorem length_mismatch_message_form (received expected_receive : Z)
    (future : nat) (w : World) :
  loop_closed w = false →
  futures w !! future = Some PENDING →
  received ≠ expected_receive →
  ∀ recv_cb, recv_cb ∈ recv_callbacks →
    recv_cb None received future expected_receive w
    = (Returned tt,
       resolved future
         (FINISHED_exception
            (UCXError
               ("Comm Error: length mismatch: " +:+ format_d received
                +:+ " (got) != " +:+ format_d expected_receive
                +:+ " (expected)"))) w)
    ∧ build_msg None received expected_receive
      = "Comm Error: length mismatch: " +:+ format_d received
        +:+ " (got) != " +:+ format_d expected_receive +:+ " (expected)".
Proof.
  intros Hc Hf Hne recv_cb ->%recv_callbacks_inv. split.
  - rewrite recv_cb_open_pending by done.
    by apply Z.eqb_neq in Hne as ->.
  - apply build_msg_None.
Qed.

Lemma length_mismatch_message_form_witness :
  StreamRecv.recv_cb None 80 0 100 (example_world false PENDING)
  = (Returned tt,
     example_world false
       (FINISHED_exception
          (UCXError
             "Comm Error: length mismatch: 80 (got) != 100 (expected)"))).
Proof.
  refine (proj1 (length_mismatch_message_form 80 100 0%nat
                   (example_world false PENDING) _ _ _
                   StreamRecv.recv_cb _)).
  - reflexivity.
  - reflexivity.
  - lia.
  - unfold recv_callbacks. apply elem_of_cons. right.
    apply elem_of_cons. by left.
Defined.

Example format_d_examples :
  format_d 0 = "0" ∧ format_d 4096 = "4096" ∧ format_d (-5) = "-5".
Proof. done. Qed.

(** ** The claims about the dict of the caller *)

Lemma issued_dicts ep peer buffer nbytes tag w :
  dicts (issued ep peer buffer nbytes tag w) = dicts w
  ∧ setitem_log (issued ep peer buffer nbytes tag w) = setitem_log w.
Proof. done. Qed.

(** C6: called with a dict, each of the four entry points returns a
    future [ret] and leaves the dict with [ret], the very address it
    returns, under the key [future], and under the key [ucp_request] the
    handle that the native issue call returned, which is the handle
    under which the native layer holds the request. *)
Theorem pending_msg_holds_future_and_request (ep : EntryPoint)
    (peer buffer : nat) (nbytes tag : Z) (d : nat)
    (items : gmap string PyValue) (w : World) :
  dicts w !! d = Some items →
  ∃ ret req w' items',
    entry_point ep peer buffer nbytes tag (Some d) w = (Returned ret, w')
    ∧ (native_issue (entry_op ep peer buffer nbytes tag) (entry_callback ep)
         (entry_args ep ret nbytes) (create_future w).2).1 = Returned req
    ∧ inflight w' !! req
      = Some (mkInFlight (entry_op ep peer buffer nbytes tag)
                (entry_callback ep) (entry_args ep ret nbytes))
    ∧ futures w' !! ret = Some PENDING
    ∧ dicts w' !! d = Some items'
    ∧ items' !! "future" = Some (PyFuture ret)
    ∧ items' !! "ucp_request" = Some (PyRequest req).
Proof.
  intros Hd.
  exists (fresh (dom (futures w))), (next_request w),
    (published d items (fresh (dom (futures w))) (next_request w)
       (issued ep peer buffer nbytes tag w)),
    (<["ucp_request" := PyRequest (next_request w)]>
       (<["future" := PyFuture (fresh (dom (futures w)))]> items)).
  split_and!.
  - rewrite entry_point_run. cbv zeta. by rewrite Hd.
  - reflexivity.
  - apply issued_inflight.
  - apply issued_future.
  - unfold published. simpl. apply lookup_insert_eq.
  - rewrite lookup_insert_ne by done. apply lookup_insert_eq.
  - apply lookup_insert_eq.
Qed.

Lemma pending_msg_holds_future_and_request_witness :
  ∃ ret req w' items',
    entry_point STREAM_RECV 1 2 4096 0 (Some 7%nat)
      (example_world false PENDING) = (Returned ret, w')
    ∧ (native_issue (entry_op STREAM_RECV 1 2 4096 0)
         (entry_callback STREAM_RECV) (entry_args STREAM_RECV ret 4096)
         (create_future (example_world false PENDING)).2).1 = Returned req
    ∧ inflight w' !! req
      = Some (mkInFlight (entry_op STREAM_RECV 1 2 4096 0)
                (entry_callback STREAM_RECV)
                (entry_args STREAM_RECV ret 4096))
    ∧ futures w' !! ret = Some PENDING
    ∧ dicts w' !! 7%nat = Some items'
    ∧ items' !! "future" = Some (PyFuture ret)
    ∧ items' !! "ucp_request" = Some (PyRequest req).
Proof.
  apply (pending_msg_holds_future_and_request STREAM_RECV 1 2 4096 0 7
           {[ "note" := PyStr "keep" ]} (example_world false PENDING)).
  reflexivity.
Defined.

(** C9: an entry point called without a dict leaves every dict as it was
    and assigns to no key.  Called with a dict, it makes exactly two
    assignments, to the key [future] and then to the key [ucp_request]
    of that dict, once each; every other key of the dict and every other
    dict stay as they were. *)
Theorem entry_point_writes_two_keys (ep : EntryPoint) (peer buffer : nat)
    (nbytes tag : Z) (pending_msg : option nat) (w : World) :
  (∀ d, pending_msg = Some d → is_Some (dicts w !! d)) →
  ∃ ret req w',
    entry_point ep peer buffer nbytes tag pending_msg w = (Returned ret, w')
    ∧ match pending_msg with
      | None => dicts w' = dicts w ∧ setitem_log w' = setitem_log w
      | Some d =>
          setitem_log w'
          = setitem_log w
            ++ [(d, "future", PyFuture ret);
                (d, "ucp_request", PyRequest req)]
          ∧ (∀ d', d' ≠ d → dicts w' !! d' = dicts w !! d')
          ∧ ∃ items items',
              dicts w !! d = Some items
              ∧ dicts w' !! d = Some items'
              ∧ items' = <["ucp_request" := PyRequest req]>
                           (<["future" := PyFuture ret]> items)
              ∧ ∀ key, key ≠ "future" → key ≠ "ucp_request" →
                  items' !! key = items !! key
      end.
Proof.
  intros Hd. exists (fresh (dom (futures w))), (next_request w).
  rewrite entry_point_run. cbv zeta.
  destruct pending_msg as [d|].
  - destruct (Hd d eq_refl) as [items Hitems]. rewrite Hitems.
    eexists. split; [reflexivity|]. split_and!.
    + reflexivity.
    + intros d' Hne. unfold published. simpl. by rewrite lookup_insert_ne.
    + exists items. eexists. split_and!.
      * reflexivity.
      * unfold published. simpl. apply lookup_insert_eq.
      * reflexivity.
      * intros key Hk1 Hk2. by rewrite !lookup_insert_ne.
  - eexists. split; [reflexivity|]. apply issued_dicts.
Qed.

Lemma entry_point_writes_two_keys_witness :
  ∃ ret req w',
    entry_point TAG_SEND 1 2 64 9 (Some 7%nat) (example_world false PENDING)
    = (Returned ret, w')
    ∧ setitem_log w'
      = setitem_log (example_world false PENDING)
        ++ [(7%nat, "future", PyFuture ret);
            (7%nat, "ucp_request", PyRequest req)]
    ∧ (∀ d', d' ≠ 7%nat →
         dicts w' !! d' = dicts (example_world false PENDING) !! d')
    ∧ ∃ items items',
        dicts (example_world false PENDING) !! 7%nat = Some items
        ∧ dicts w' !! 7%nat = Some items'
        ∧ items' = <["ucp_request" := PyRequest req]>
                     (<["future" := PyFuture ret]> items)
        ∧ ∀ key, key ≠ "future" → key ≠ "ucp_request" →
            items' !! key = items !! key.
Proof.
  apply (entry_point_writes_two_keys TAG_SEND 1 2 64 9 (Some 7%nat)
           (example_world false PENDING)).
  intros d [= <-]. eexists. reflexivity.
Defined.

(** The dict of the example keeps its own key through [tag_send]. *)
Example tag_send_keeps_note :
  ∃ items',
    dicts (TagSend.tag_send 1 2 64 9 (Some 7%nat)
             (example_world false PENDING)).2 !! 7%nat = Some items'
    ∧ items' !! "note" = Some (PyStr "keep")
    ∧ items' !! "future" = Some (PyFuture 1)
    ∧ items' !! "ucp_request" = Some (PyRequest 0).
Proof. eexists. split; [reflexivity|]. done. Qed.

(** * Further properties of the callbacks and of the entry points *)

(** ** One invocation, in full *)

(** What an invocation does depends on the loop flag and on the state of
    its future, and on nothing else in the store. *)
Lemma invoke_cases cb args exception received w :
  call_fits cb args = true →
  invoke cb args exception received w
  = if loop_closed w then (Returned tt, w)
    else match futures w !! args_future args with
         | Some PENDING =>
             (Returned tt,
              resolved (args_future args)
                (completion_state args exception received) w)
         | Some _ => (Raised InvalidStateError, w)
         | None => (Raised AttributeError, w)
         end.
Proof.
  intros Hfit. destruct (loop_closed w) eqn:Hc;
    [by apply invoke_closed|].
  destruct (futures w !! args_future args) as [st|] eqn:Hf.
  - destruct (done st) eqn:Hd.
    + rewrite (invoke_done cb args exception received w st) by done.
      by destruct st.
    + destruct st; try discriminate Hd.
      rewrite invoke_run by done.
      destruct args as [future|future expected_receive]; simpl in *.
      * rewrite send_cb_open_pending by done. by destruct exception.
      * rewrite recv_cb_open_pending by done. by destruct exception.
  - rewrite invoke_run by done.
    destruct args as [future|future expected_receive]; simpl in Hf.
    + rewrite send_cb_run, Hc. unfold set_exception, set_result.
      rewrite Hf. by destruct exception.
    + rewrite recv_cb_run, Hc. unfold set_exception, set_result.
      rewrite Hf. destruct exception; [done|].
      by destruct (received =? expected_receive).
Qed.

Lemma invoke_misfit cb args exception received w :
  call_fits cb args = false →
  invoke cb args exception received w = (Raised TypeError, w).
Proof. by destruct cb, args. Qed.

(** Either the store is as it was, or the future of the invocation went
    from pending to done. *)
Lemma invoke_effect cb args exception received w :
  (invoke cb args exception received w).2 = w
  ∨ ∃ st,
      futures w !! args_future args = Some PENDING
      ∧ done st = true
      ∧ (invoke cb args exception received w).2
        = resolved (args_future args) st w.
Proof.
  destruct (call_fits cb args) eqn:Hfit;
    [|left; by rewrite invoke_misfit].
  rewrite invoke_cases by done.
  destruct (loop_closed w); [by left|].
  destruct (futures w !! args_future args) as [[]|] eqn:Hf; try by left.
  right. exists (completion_state args exception received).
  split_and!; [done| |done].
  destruct exception, args; simpl; try done.
  by destruct (received =? expected_receive).
Qed.

Lemma completion_state_done args exception received :
  done (completion_state args exception received) = true.
Proof.
  destruct exception, args; simpl; try done.
  by destruct (received =? expected_receive).
Qed.

(** X1: an invocation of a callback, of any kind and with any outcome,
    touches nothing but its own future: the loop flag, every dict, the
    log of assignments, the requests in flight and every other future
    are afterwards as they were. *)
Theorem callback_changes_only_its_future (cb : Callback) (args : CallbackArgs)
    (exception : option PyException) (received : Z) (w : World) :
  loop_closed (invoke cb args exception received w).2 = loop_closed w
  ∧ dicts (invoke cb args exception received w).2 = dicts w
  ∧ setitem_log (invoke cb args exception received w).2 = setitem_log w
  ∧ inflight (invoke cb args exception received w).2 = inflight w
  ∧ next_request (invoke cb args exception received w).2 = next_request w
  ∧ ∀ other, other ≠ args_future args →
      futures (invoke cb args exception received w).2 !! other
      = futures w !! other.
Proof.
  destruct (invoke_effect cb args exception received w)
    as [-> | (st & _ & _ & ->)]; [done|].
  split_and!; try done.
  intros other Hne. unfold resolved. simpl. by rewrite lookup_insert_ne.
Qed.

Lemma run_invocations_cons i l w :
  run_invocations (i :: l) w
  = ((run_invocation i w).1
       :: (run_invocations l (run_invocation i w).2).1,
     (run_invocations l (run_invocation i w).2).2).
Proof.
  simpl. destruct (run_invocation i w) as [r w1]. simpl.
  by destruct (run_invocations l w1).
Qed.

(** X2: over any sequence of callback invocations, whatever they target,
    the state of a future only moves forward: afterwards it is what it
    was, or the future was pending and is now done.  A done future is
    never changed and none is made pending again. *)
Theorem future_states_only_advance (l : list Invocation) (w : World)
    (x : nat) :
  futures (run_invocations l w).2 !! x = futures w !! x
  ∨ futures w !! x = Some PENDING
    ∧ ∃ st, futures (run_invocations l w).2 !! x = Some st
            ∧ done st = true.
Proof.
  revert w. induction l as [|i l IH]; intros w; [by left|].
  rewrite run_invocations_cons. simpl.
  unfold run_invocation at 1 2.
  destruct (invoke_effect (inv_callback i) (inv_args i) (inv_exception i)
              (inv_received i) w) as [Hsame | (st & Hp & Hd & Hw)].
  - unfold run_invocation. rewrite Hsame. apply IH.
  - unfold run_invocation. rewrite Hw.
    destruct (decide (args_future (inv_args i) = x)) as [<- | Hne].
    + right. split; [done|].
      destruct (IH (resolved (args_future (inv_args i)) st w))
        as [-> | [Hp' _]].
      * exists st. by rewrite resolved_lookup.
      * rewrite resolved_lookup in Hp'. by destruct st.
    + destruct (IH (resolved (args_future (inv_args i)) st w))
        as [-> | [Hp' Hst]].
      * left. unfold resolved. simpl. by rewrite lookup_insert_ne.
      * right. split; [|done].
        unfold resolved in Hp'. simpl in Hp'.
        by rewrite lookup_insert_ne in Hp'.
Qed.

Lemma invoke_open_pending cb args exception received w :
  call_fits cb args = true →
  loop_closed w = false →
  futures w !! args_future args = Some PENDING →
  invoke cb args exception received w
  = (Returned tt,
     resolved (args_future args)
       (completion_state args exception received) w).
Proof. intros Hfit Hc Hf. by rewrite invoke_cases, Hc, Hf. Qed.

(** X3: on an open loop, when several completions are delivered for one
    pending future, the first one wins: it returns and fixes the state of
    the future, every later one raises [InvalidStateError], and the
    future ends in the state the first one gave it. *)
Theorem first_completion_wins (i : Invocation) (l : list Invocation)
    (w : World) (future : nat) :
  loop_closed w = false →
  futures w !! future = Some PENDING →
  targets future i →
  Forall (targets future) l →
  run_invocations (i :: l) w
  = (Returned tt :: map (λ _, Raised InvalidStateError) l,
     resolved future
       (completion_state (inv_args i) (inv_exception i) (inv_received i)) w).
Proof.
  intros Hc Hf [Hfit Htgt] Hl.
  rewrite run_invocations_cons. unfold run_invocation at 1 2 3.
  rewrite invoke_open_pending by (by rewrite ?Htgt). rewrite Htgt. simpl.
  rewrite (run_invocations_done l _ future
             (completion_state (inv_args i) (inv_exception i)
                (inv_received i))).
  - unfold refusal. simpl. by rewrite Hc.
  - apply resolved_lookup.
  - apply completion_state_done.
  - done.
Qed.

Lemma first_completion_wins_witness :
  run_invocations
    [mkInvocation StreamRecvCb (RecvArgs 0 100) None 80;
     mkInvocation StreamRecvCb (RecvArgs 0 100) None 100]
    (example_world false PENDING)
  = ([Returned tt; Raised InvalidStateError],
     example_world false
       (FINISHED_exception
          (UCXError
             "Comm Error: length mismatch: 80 (got) != 100 (expected)"))).
Proof.
  refine (first_completion_wins
            (mkInvocation StreamRecvCb (RecvArgs 0 100) None 80)
            [mkInvocation StreamRecvCb (RecvArgs 0 100) None 100]
            (example_world false PENDING) 0%nat _ _ _ _).
  - reflexivity.
  - reflexivity.
  - by split.
  - repeat constructor.
Defined.

Lemma resolved_commute f1 f2 st1 st2 w :
  f1 ≠ f2 →
  resolved f1 st1 (resolved f2 st2 w) = resolved f2 st2 (resolved f1 st1 w).
Proof.
  intros Hne. unfold resolved, set_futures. simpl.
  by rewrite insert_insert_ne.
Qed.

Lemma resolved_lookup_other f1 f2 st w :
  f1 ≠ f2 → futures (resolved f1 st w) !! f2 = futures w !! f2.
Proof. intros Hne. unfold resolved. simpl. by rewrite lookup_insert_ne. Qed.

(** An invocation runs the same when another future has been resolved
    before it. *)
Lemma invoke_resolved_other cb args exception received f st w :
  f ≠ args_future args →
  invoke cb args exception received (resolved f st w)
  = ((invoke cb args exception received w).1,
     resolved f st (invoke cb args exception received w).2).
Proof.
  intros Hne. destruct (call_fits cb args) eqn:Hfit;
    [|by rewrite !invoke_misfit].
  rewrite !invoke_cases by done.
  rewrite resolved_lookup_other by done.
  change (loop_closed (resolved f st w)) with (loop_closed w).
  destruct (loop_closed w); [done|].
  destruct (futures w !! args_future args) as [[]|]; try done.
  cbn [fst snd]. by rewrite resolved_commute.
Qed.

(** X4: completions for two different futures do not interfere: in
    either order each invocation gives the same result and the store
    ends the same. *)
Theorem completions_of_different_futures_commute (i1 i2 : Invocation)
    (w : World) :
  args_future (inv_args i1) ≠ args_future (inv_args i2) →
  (run_invocation i1 (run_invocation i2 w).2).1 = (run_invocation i1 w).1
  ∧ (run_invocation i2 (run_invocation i1 w).2).1 = (run_invocation i2 w).1
  ∧ (run_invocation i2 (run_invocation i1 w).2).2
    = (run_invocation i1 (run_invocation i2 w).2).2.
Proof.
  destruct i1 as [cb1 args1 e1 r1], i2 as [cb2 args2 e2 r2].
  unfold run_invocation. cbn [inv_callback inv_args inv_exception inv_received].
  intros Hne.
  destruct (invoke_effect cb1 args1 e1 r1 w) as [H1 | (st1 & _ & _ & H1)],
    (invoke_effect cb2 args2 e2 r2 w) as [H2 | (st2 & _ & _ & H2)];
    rewrite H1, H2;
    rewrite ?invoke_resolved_other by done; cbn [fst snd];
    rewrite ?H1, ?H2; split_and!; try done.
  by apply resolved_commute.
Qed.

Lemma completions_of_different_futures_commute_witness :
  (run_invocation (mkInvocation TagRecvCb (RecvArgs 1 8) None 8)
     (run_invocation (mkInvocation TagSendCb (SendArgs 0) None 0)
        two_futures_world).2).2
  = (run_invocation (mkInvocation TagSendCb (SendArgs 0) None 0)
       (run_invocation (mkInvocation TagRecvCb (RecvArgs 1 8) None 8)
          two_futures_world).2).2.
Proof.
  refine (proj2 (proj2 (completions_of_different_futures_commute
                          (mkInvocation TagSendCb (SendArgs 0) None 0)
                          (mkInvocation TagRecvCb (RecvArgs 1 8) None 8)
                          two_futures_world _))).
  simpl. lia.
Defined.

(** X5: after a receive callback ran on an open loop for a pending
    future, the future holds the result [True] exactly when there was no
    error indicator and the received count equals the expected one. *)
Theorem recv_success_iff_exact_length
    (recv_cb : option PyException → Z → nat → Z → Py unit)
    (exception : option PyException) (received : Z) (future : nat)
    (expected_receive : Z) (w : World) :
  recv_cb ∈ recv_callbacks →
  loop_closed w = false →
  futures w !! future = Some PENDING →
  futures (recv_cb exception received future expected_receive w).2 !! future
  = Some (FINISHED_result (PyBool true))
  ↔ exception = None ∧ received = expected_receive.
Proof.
  intros ->%recv_callbacks_inv Hc Hf.
  rewrite recv_cb_open_pending by done. simpl. rewrite lookup_insert_eq.
  destruct exception as [e|].
  - split; [discriminate|]. by intros [? _].
  - destruct (Z.eqb_spec received expected_receive) as [Heq|Hne].
    + done.
    + split; [discriminate|]. by intros [_ ?].
Qed.

Lemma recv_success_iff_exact_length_witness :
  futures (TagRecv.recv_cb None 100 0 100 (example_world false PENDING)).2
    !! 0%nat
  = Some (FINISHED_result (PyBool true))
  ↔ None = (None : option PyException) ∧ 100 = 100.
Proof.
  refine (recv_success_iff_exact_length TagRecv.recv_cb None 100 0%nat 100
            (example_world false PENDING) _ _ _).
  - unfold recv_callbacks. apply elem_of_cons. by left.
  - reflexivity.
  - reflexivity.
Defined.

(** ** The entry points, beyond the dict *)

Lemma fresh_future_unused (w : World) :
  futures w !! fresh (dom (futures w)) = None.
Proof. apply not_elem_of_dom, is_fresh. Qed.

Lemma issued_futures ep peer buffer nbytes tag w :
  futures (issued ep peer buffer nbytes tag w)
  = <[fresh (dom (futures w)) := PENDING]> (futures w).
Proof. done. Qed.

(** X6: the future an entry point returns is a new object: its address
    was not in use before the call, it is pending at the return, every
    future that existed keeps its state, and the loop flag is not
    touched.  The entry points do not look at the loop flag: this holds
    on a closed loop as on an open one, with a dict or without. *)
Theorem entry_point_returns_new_future (ep : EntryPoint) (peer buffer : nat)
    (nbytes tag : Z) (pending_msg : option nat) (w : World) :
  (∀ d, pending_msg = Some d → is_Some (dicts w !! d)) →
  ∃ ret w',
    entry_point ep peer buffer nbytes tag pending_msg w = (Returned ret, w')
    ∧ futures w !! ret = None
    ∧ futures w' !! ret = Some PENDING
    ∧ (∀ other st, futures w !! other = Some st →
         other ≠ ret ∧ futures w' !! other = Some st)
    ∧ loop_closed w' = loop_closed w.
Proof.
  intros Hd. exists (fresh (dom (futures w))).
  rewrite entry_point_run. cbv zeta.
  assert (∀ other st, futures w !! other = Some st →
            other ≠ fresh (dom (futures w))
            ∧ <[fresh (dom (futures w)) := PENDING]> (futures w) !! other
              = Some st) as Hold.
  { intros other st Hst.
    assert (other ≠ fresh (dom (futures w))) as Hne.
    { intros ->. by rewrite fresh_future_unused in Hst. }
    split; [done|]. by rewrite lookup_insert_ne. }
  destruct pending_msg as [d|].
  - destruct (Hd d eq_refl) as [items ->]. eexists. split; [reflexivity|].
    split_and!; [apply fresh_future_unused|apply issued_future|exact Hold|done].
  - eexists. split; [reflexivity|].
    split_and!; [apply fresh_future_unused|apply issued_future|exact Hold|done].
Qed.

Lemma entry_point_returns_new_future_witness :
  ∃ ret w',
    entry_point STREAM_SEND 1 2 4096 0 None (example_world true PENDING)
    = (Returned ret, w')
    ∧ futures (example_world true PENDING) !! ret = None
    ∧ futures w' !! ret = Some PENDING
    ∧ (∀ other st, futures (example_world true PENDING) !! other = Some st →
         other ≠ ret ∧ futures w' !! other = Some st)
    ∧ loop_closed w' = loop_closed (example_world true PENDING).
Proof.
  apply (entry_point_returns_new_future STREAM_SEND 1 2 4096 0 None
           (example_world true PENDING)).
  intros d Hd. discriminate Hd.
Defined.

Lemma entry_point_loop_closed ep peer buffer nbytes tag pending_msg w :
  loop_closed (entry_point ep peer buffer nbytes tag pending_msg w).2
  = loop_closed w.
Proof.
  rewrite entry_point_run. cbv zeta.
  destruct pending_msg as [d|]; [|done]. by destruct (dicts w !! d).
Qed.

(** X7: a request issued while the loop is closed never completes its
    future.  The entry point issues it all the same and returns a pending
    future; every completion the native layer then delivers is dropped
    by the callback, so the future stays pending however many arrive. *)
Theorem request_on_closed_loop_stays_pending (ep : EntryPoint)
    (peer buffer : nat) (nbytes tag : Z) (pending_msg : option nat)
    (w : World) (outcomes : list (option PyException * Z)) :
  loop_closed w = true →
  (∀ d, pending_msg = Some d → is_Some (dicts w !! d)) →
  ∃ ret w1,
    entry_point ep peer buffer nbytes tag pending_msg w = (Returned ret, w1)
    ∧ inflight w1 !! next_request w
      = Some (mkInFlight (entry_op ep peer buffer nbytes tag)
                (entry_callback ep) (entry_args ep ret nbytes))
    ∧ run_invocations
        (map (λ o, mkInvocation (entry_callback ep) (entry_args ep ret nbytes)
                     o.1 o.2) outcomes) w1
      = (map (λ _, Returned tt) outcomes, w1)
    ∧ futures w1 !! ret = Some PENDING.
Proof.
  intros Hc Hd.
  destruct (entry_point_returns ep peer buffer nbytes tag pending_msg w Hd)
    as (w1 & Hrun & Hfut & Hinf).
  exists (fresh (dom (futures w))), w1. split_and!.
  - exact Hrun.
  - rewrite Hinf. apply issued_inflight.
  - rewrite run_invocations_closed.
    + by rewrite map_map.
    + rewrite <- Hc.
      replace w1 with
        (entry_point ep peer buffer nbytes tag pending_msg w).2
        by by rewrite Hrun.
      apply entry_point_loop_closed.
    + apply Forall_map, Forall_forall. intros o _. by destruct ep.
  - rewrite Hfut. apply issued_future.
Qed.

Lemma request_on_closed_loop_stays_pending_witness :
  ∃ ret w1,
    entry_point TAG_SEND 1 2 64 9 None (example_world true PENDING)
    = (Returned ret, w1)
    ∧ inflight w1 !! next_request (example_world true PENDING)
      = Some (mkInFlight (entry_op TAG_SEND 1 2 64 9)
                (entry_callback TAG_SEND) (entry_args TAG_SEND ret 64))
    ∧ run_invocations
        (map (λ o, mkInvocation (entry_callback TAG_SEND)
                     (entry_args TAG_SEND ret 64) o.1 o.2)
           [(None, 0)]) w1
      = (map (λ _, Returned tt) [(None : option PyException, 0)], w1)
    ∧ futures w1 !! ret = Some PENDING.
Proof.
  apply (request_on_closed_loop_stays_pending TAG_SEND 1 2 64 9 None
           (example_world true PENDING) [(None, 0)]).
  - reflexivity.
  - intros d Hd. discriminate Hd.
Defined.

(** X8: a send entry point hands to the native layer its own callback
    and the future it returns, and nothing of [nbytes].  When the
    completion arrives on an open loop with the future pending, the
    future takes the delivered exception if there is one and the result
    [True] otherwise, whatever the length of the send was. *)
Theorem send_request_completion (ep : EntryPoint) (peer buffer : nat)
    (nbytes tag : Z) (pending_msg : option nat) (w : World) :
  ep = TAG_SEND ∨ ep = STREAM_SEND →
  (∀ d, pending_msg = Some d → is_Some (dicts w !! d)) →
  ∃ ret w1,
    entry_point ep peer buffer nbytes tag pending_msg w = (Returned ret, w1)
    ∧ inflight w1 !! next_request w
      = Some (mkInFlight (entry_op ep peer buffer nbytes tag)
                (entry_callback ep) (SendArgs ret))
    ∧ ∀ exception received w2,
        loop_closed w2 = false →
        futures w2 !! ret = Some PENDING →
        invoke (entry_callback ep) (SendArgs ret) exception received w2
        = (Returned tt,
           resolved ret
             match exception with
             | Some e => FINISHED_exception e
             | None => FINISHED_result (PyBool true)
             end w2).
Proof.
  intros Hep Hd.
  destruct (entry_point_returns ep peer buffer nbytes tag pending_msg w Hd)
    as (w1 & Hrun & Hfut & Hinf).
  exists (fresh (dom (futures w))), w1. split_and!.
  - exact Hrun.
  - rewrite Hinf, issued_inflight. by destruct Hep as [-> | ->].
  - intros exception received w2 Hc Hf.
    rewrite invoke_run by (by destruct Hep as [-> | ->]).
    by rewrite send_cb_open_pending.
Qed.

Lemma send_request_completion_witness :
  ∃ ret w1,
    entry_point STREAM_SEND 1 2 4096 0 None (example_world false PENDING)
    = (Returned ret, w1)
    ∧ inflight w1 !! next_request (example_world false PENDING)
      = Some (mkInFlight (entry_op STREAM_SEND 1 2 4096 0)
                (entry_callback STREAM_SEND) (SendArgs ret))
    ∧ ∀ exception received w2,
        loop_closed w2 = false →
        futures w2 !! ret = Some PENDING →
        invoke (entry_callback STREAM_SEND) (SendArgs ret) exception
          received w2
        = (Returned tt,
           resolved ret
             match exception with
             | Some e => FINISHED_exception e
             | None => FINISHED_result (PyBool true)
             end w2).
Proof.
  apply (send_request_completion STREAM_SEND 1 2 4096 0 None
           (example_world false PENDING)).
  - by right.
  - intros d Hd. discriminate Hd.
Defined.

(** The scenario of a stream send of 4096 bytes whose completion reports
    a transport fault. *)
Example stream_send_4096_then_fault :
  futures
    (invoke StreamSendCb (SendArgs 1)
       (Some (NativeError "TransferFault" "transport fault")) 0
       (StreamSend.stream_send 1 2 4096 None
          (example_world false PENDING)).2).2 !! 1%nat
  = Some (FINISHED_exception (NativeError "TransferFault" "transport fault")).
Proof. vm_compute. done. Qed.

(** X9: one dict given to two calls in a row keeps track of the second
    call only: the two calls return different futures, both pending
    after the second call, and the dict then holds the future and the
    request of the second call. *)
Theorem shared_dict_holds_last_request (ep1 ep2 : EntryPoint)
    (peer1 buffer1 peer2 buffer2 : nat) (nbytes1 tag1 nbytes2 tag2 : Z)
    (d : nat) (w : World) :
  is_Some (dicts w !! d) →
  ∃ ret1 w1 ret2 w2 items2,
    entry_point ep1 peer1 buffer1 nbytes1 tag1 (Some d) w = (Returned ret1, w1)
    ∧ entry_point ep2 peer2 buffer2 nbytes2 tag2 (Some d) w1
      = (Returned ret2, w2)
    ∧ ret1 ≠ ret2
    ∧ futures w2 !! ret1 = Some PENDING
    ∧ futures w2 !! ret2 = Some PENDING
    ∧ dicts w2 !! d = Some items2
    ∧ items2 !! "future" = Some (PyFuture ret2)
    ∧ items2 !! "ucp_request" = Some (PyRequest (next_request w1)).
Proof.
  intros [items Hitems].
  set (ret1 := fresh (dom (futures w))).
  set (w1 := published d items ret1 (next_request w)
               (issued ep1 peer1 buffer1 nbytes1 tag1 w)).
  set (items1 := <["ucp_request" := PyRequest (next_request w)]>
                   (<["future" := PyFuture ret1]> items)).
  assert (dicts w1 !! d = Some items1) as Hitems1.
  { unfold w1, published. simpl. apply lookup_insert_eq. }
  set (ret2 := fresh (dom (futures w1))).
  assert (futures w1 !! ret1 = Some PENDING) as Hret1.
  { apply issued_future. }
  assert (ret1 ≠ ret2) as Hne.
  { intros Heq. pose proof (fresh_future_unused w1) as Hfresh.
    fold ret2 in Hfresh. rewrite <- Heq in Hfresh. congruence. }
  exists ret1, w1, ret2,
    (published d items1 ret2 (next_request w1)
       (issued ep2 peer2 buffer2 nbytes2 tag2 w1)),
    (<["ucp_request" := PyRequest (next_request w1)]>
       (<["future" := PyFuture ret2]> items1)).
  split_and!.
  - rewrite entry_point_run. cbv zeta. by rewrite Hitems.
  - rewrite entry_point_run. cbv zeta. by rewrite Hitems1.
  - exact Hne.
  - change (<[ret2 := PENDING]> (futures w1) !! ret1 = Some PENDING).
    by rewrite lookup_insert_ne.
  - apply issued_future.
  - unfold published. simpl. apply lookup_insert_eq.
  - rewrite lookup_insert_ne by done. apply lookup_insert_eq.
  - apply lookup_insert_eq.
Qed.

Lemma shared_dict_holds_last_request_witness :
  ∃ ret1 w1 ret2 w2 items2,
    entry_point TAG_SEND 1 2 64 9 (Some 7%nat) (example_world false PENDING)
    = (Returned ret1, w1)
    ∧ entry_point TAG_RECV 3 4 64 9 (Some 7%nat) w1 = (Returned ret2, w2)
    ∧ ret1 ≠ ret2
    ∧ futures w2 !! ret1 = Some PENDING
    ∧ futures w2 !! ret2 = Some PENDING
    ∧ dicts w2 !! 7%nat = Some items2
    ∧ items2 !! "future" = Some (PyFuture ret2)
    ∧ items2 !! "ucp_request" = Some (PyRequest (next_request w1)).
Proof.
  apply (shared_dict_holds_last_request TAG_SEND TAG_RECV 1 2 3 4 64 9 64 9
           7 (example_world false PENDING)).
  eexists. reflexivity.
Defined.

(** X10: the dict is written after the request has been issued.  When
    [pending_msg] is not [None] and is no dict, the assignment raises
    [TypeError] out of the entry point, which returns no future; by then
    the future has been made and the request is in flight with its
    callback, and no dict has been written. *)
Theorem entry_point_raises_after_issue (ep : EntryPoint) (peer buffer : nat)
    (nbytes tag : Z) (d : nat) (w : World) :
  dicts w !! d = None →
  ∃ w',
    entry_point ep peer buffer nbytes tag (Some d) w = (Raised TypeError, w')
    ∧ futures w' !! fresh (dom (futures w)) = Some PENDING
    ∧ inflight w' !! next_request w
      = Some (mkInFlight (entry_op ep peer buffer nbytes tag)
                (entry_callback ep)
                (entry_args ep (fresh (dom (futures w))) nbytes))
    ∧ dicts w' = dicts w
    ∧ setitem_log w' = setitem_log w.
Proof.
  intros Hd. exists (issued ep peer buffer nbytes tag w). split_and!.
  - rewrite entry_point_run. cbv zeta. by rewrite Hd.
  - apply issued_future.
  - apply issued_inflight.
  - done.
  - done.
Qed.

Lemma entry_point_raises_after_issue_witness :
  ∃ w',
    entry_point TAG_RECV 1 2 100 5 (Some 3%nat) (example_world false PENDING)
    = (Raised TypeError, w')
    ∧ futures w' !! fresh (dom (futures (example_world false PENDING)))
      = Some PENDING
    ∧ inflight w' !! next_request (example_world false PENDING)
      = Some (mkInFlight (entry_op TAG_RECV 1 2 100 5)
                (entry_callback TAG_RECV)
                (entry_args TAG_RECV
                   (fresh (dom (futures (example_world false PENDING))))
                   100))
    ∧ dicts w' = dicts (example_world false PENDING)
    ∧ setitem_log w' = setitem_log (example_world false PENDING).
Proof.
  apply (entry_point_raises_after_issue TAG_RECV 1 2 100 5 3
           (example_world false PENDING)).
  reflexivity.
Defined.
